(** * DiskUsage: a shallow embedding of [du.c]

    [du.c] imitates the Linux command [du]: it parses its options, walks the
    named directories with [opendir]/[readdir]/[lstat], sums [st_blocks / 2]
    bottom-up and prints one line per reported entry.

    The embedding keeps the shape of the C source:
    - C integers are values of [Z]; [long] and [int] additions wrap
      ([long_add], [int_add]) the way two's-complement hardware does, and the
      theorems that need it assume the sums stay in range;
    - a [double] is a rational of [Q]: every value the formatter computes is
      [kb / 1024^k], or ten times it, for an integer [kb], which binary64
      holds exactly on the range the 8-byte buffer [size] allows; module
      [Binary64] runs the same branches on primitive binary64 numbers and
      the two are compared on samples;
    - the file system is what [lstat], [opendir] and [readdir] answer: a tree
      of [inode]s; [lstat] can fail on an entry, and the walker, which does
      not look at its result, then reads a buffer that keeps what it held;
    - output, diagnostics and the directory streams are threaded through a
      small state monad [IO] over the record [process]. *)

From Stdlib Require Import ZArith QArith Qround String Ascii List Bool Lia Lqa.
From Stdlib Require Import DecimalString.
From Stdlib Require Import Uint63 PrimFloat FloatOps SpecFloat.
Import ListNotations.
Local Open Scope string_scope.
Local Open Scope Z_scope.

(* ================================================================= *)
(** ** C integers *)

Module CInt.

Definition INT_MAX : Z := 2147483647.
Definition LONG_MAX : Z := 9223372036854775807.
Definition INT_MIN : Z := - INT_MAX - 1.
Definition LONG_MIN : Z := - LONG_MAX - 1.

(** Two's-complement representative of [z] on [bits] bits. *)
Definition wrap (bits : Z) (z : Z) : Z :=
  (z + 2 ^ (bits - 1)) mod 2 ^ bits - 2 ^ (bits - 1).

Definition long_add (a b : Z) : Z := wrap 64 (a + b).
Definition int_add (a b : Z) : Z := wrap 32 (a + b).

(** C's [/] on integers truncates toward zero. *)
Definition c_div (a b : Z) : Z := Z.quot a b.

End CInt.
Export CInt.

(* ================================================================= *)
(** ** The pieces of libc the program prints with *)

Module Libc.

Definition newline : string := String (ascii_of_nat 10) EmptyString.

(** [%d] and [%ld]. *)
Definition string_of_Z (z : Z) : string := NilEmpty.string_of_int (Z.to_int z).

Fixpoint spaces (n : nat) : string :=
  match n with
  | O => EmptyString
  | S n' => String " " (spaces n')
  end.

(** [%-8s]: left-justified in a field of at least eight characters. *)
Definition pad8 (s : string) : string := s ++ spaces (8 - String.length s).

(** Round to the nearest integer, ties to even, as [printf] rounds the
    digits it drops. *)
Definition round_half_even (x : Q) : Z :=
  let f := Qfloor x in
  match Qcompare (x - inject_Z f)%Q (1 # 2)%Q with
  | Lt => f
  | Gt => f + 1
  | Eq => if Z.even f then f else f + 1
  end.

(** [%.1lf] *)
Definition printf_1lf (x : Q) : string :=
  let t := round_half_even (x * 10)%Q in
  (if t <? 0 then "-" else "") ++
  string_of_Z (Z.abs t / 10) ++ "." ++ string_of_Z (Z.abs t mod 10).

End Libc.
Export Libc.

(* ================================================================= *)
(** ** The size formatter *)

(** [#define OUT_FORMAT "%-8ld%s\n"] *)
Definition OUT_FORMAT (size : Z) (name : string) : string :=
  pad8 (string_of_Z size) ++ name ++ newline.

(** [#define RD_FORMAT "%-8s%s\n"] *)
Definition RD_FORMAT (size name : string) : string :=
  pad8 size ++ name ++ newline.

Definition BYTE_CONV : Q := 1024.

Definition double := Q.

Definition Qgt_bool (x y : Q) : bool := negb (Qle_bool x y).

(** [(int)x]: the fractional part is discarded.  C leaves the conversion
    undefined when the integral part is outside the range of [int]; the
    x86-64 conversion instruction then yields [INT_MIN]. *)
Definition int_of_double (x : double) : Z :=
  let z := Z.quot (Qnum x) (Zpos (Qden x)) in
  if (INT_MIN <=? z) && (z <=? INT_MAX) then z else INT_MIN.

(** [int ceiling(double x) { return x - (int)x > 0 ? (int)(x + 1) : (int)x; }] *)
Definition ceiling (x : double) : Z :=
  if Qgt_bool (x - inject_Z (int_of_double x))%Q 0
  then int_of_double (x + 1)%Q
  else int_of_double x.

Inductive suffix : Set := SufK | SufM | SufG | SufT.

Definition suffix_text (u : suffix) : string :=
  match u with
  | SufK => "K"
  | SufM => "M"
  | SufG => "G"
  | SufT => "T"
  end.

(** The three [sprintf] calls that fill [char size[8]]:
    ["%d<u>"], ["%.1lf<u>"] and ["0"]. *)
Inductive size_arg : Set :=
| PctD (n : Z) (u : suffix)
| PctF (x : double) (u : suffix)
| Zero.

Definition sprintf_size (a : size_arg) : string :=
  match a with
  | PctD n u => string_of_Z n ++ suffix_text u
  | PctF x u => printf_1lf x ++ suffix_text u
  | Zero => "0"
  end.

(** The branches of [PrintFileReadable], in the order of the source. *)
Definition readable_size (kb : double) : size_arg :=
  let mb := (kb / BYTE_CONV)%Q in
  let gb := (mb / BYTE_CONV)%Q in
  let tb := (gb / BYTE_CONV)%Q in
  if Qle_bool 1 tb then
    if Qgt_bool (tb / 10)%Q 1 then PctD (ceiling tb) SufT
    else PctF (inject_Z (ceiling (tb * 10)%Q) / 10)%Q SufT
  else if Qle_bool 1 gb then
    if Qgt_bool (gb / 10)%Q 1 then PctD (ceiling gb) SufG
    else PctF (inject_Z (ceiling (gb * 10)%Q) / 10)%Q SufG
  else if Qle_bool 1 mb then
    if Qgt_bool (mb / 10)%Q 1 then PctD (ceiling mb) SufM
    else PctF (inject_Z (ceiling (mb * 10)%Q) / 10)%Q SufM
  else if Qgt_bool (kb / 10)%Q 1 then PctD (ceiling kb) SufK
  else if Qeq_bool kb 0 then Zero
  else PctF (inject_Z (ceiling (kb * 10)%Q) / 10)%Q SufK.

(** The line [PrintFileReadable(file, kb)] writes to standard output. *)
Definition readable_line (file : string) (kb : double) : string :=
  RD_FORMAT (sprintf_size (readable_size kb)) file.

(** The line [PrintFileUsage(size, name, mode)] writes, by [mode->readable]. *)
Definition usage_line (readable : bool) (size : Z) (name : string) : string :=
  if readable then readable_line name (inject_Z size)
  else OUT_FORMAT size name.

(** Text of the size column for a usage of [kb] KiB in [-h] mode. *)
Definition size_text (kb : Z) : string :=
  sprintf_size (readable_size (inject_Z kb)).

(** Largest usage whose [-h] text, with its terminating NUL, fits
    [char size[8]]: ["999999T"]. *)
Definition KB_MAX : Z := 999999 * 2 ^ 30.

(* ================================================================= *)
(** ** The process: output, diagnostics and directory streams *)

(** What the process does to the world, in program order.  [Opendir] and
    [Closedir] record the calls with the stream returned or passed; [None]
    is the null pointer. *)
Inductive event : Set :=
| Stdout (line : string)
| Stderr (text : string)
| Opendir (path : string) (dir : option nat)
| Closedir (dir : option nat).

Record process : Set := mkProcess {
  trace : list event;
  streams : list nat;      (* directory streams currently open *)
  next_stream : nat        (* the next stream [opendir] hands out *)
}.

Definition IO (A : Type) : Type := process -> A * process.

Definition ret {A : Type} (a : A) : IO A := fun p => (a, p).

Definition bind {A B : Type} (m : IO A) (k : A -> IO B) : IO B :=
  fun p => let (a, p') := m p in k a p'.

Declare Scope io_scope.
Delimit Scope io_scope with io.
Bind Scope io_scope with IO.
Notation "x <- m ;; k" := (bind m (fun x => k))
  (at level 61, m at next level, right associativity) : io_scope.
Notation "m ;; k" := (bind m (fun _ => k))
  (at level 61, right associativity) : io_scope.
Local Open Scope io_scope.

Definition emit (e : event) : IO unit :=
  fun p => (tt, mkProcess (trace p ++ [e]) (streams p) (next_stream p)).

Definition printf (line : string) : IO unit := emit (Stdout line).
Definition fprintf_stderr (text : string) : IO unit := emit (Stderr text).

Definition stdout_of (t : list event) : list string :=
  flat_map (fun e => match e with Stdout l => [l] | _ => [] end) t.

Definition stderr_of (t : list event) : list string :=
  flat_map (fun e => match e with Stderr l => [l] | _ => [] end) t.

(* ================================================================= *)
(** ** The file system, as the system calls show it *)

Inductive file_type : Set :=
| S_IFREG | S_IFLNK | S_IFDIR | S_IFCHR | S_IFBLK | S_IFIFO | S_IFSOCK.

Record stat : Set := mkStat { st_mode : file_type; st_blocks : Z }.

Inductive errno : Set := EACCES | ENOENT | ENOTDIR | EMFILE | ENOMEM.

Definition strerror (e : errno) : string :=
  match e with
  | EACCES => "Permission denied"
  | ENOENT => "No such file or directory"
  | ENOTDIR => "Not a directory"
  | EMFILE => "Too many open files"
  | ENOMEM => "Cannot allocate memory"
  end.

(** An entry of the tree:
    - [buf], its metadata;
    - [unfilled], what the calls of [lstat] on it inside the walker do:
      [None] when they succeed and fill the buffer with [buf]; [Some g] when
      they fail (a directory that can be read but not searched, an entry
      that is gone), [g] being what the local buffer of a call of
      [PrintDirectoryUsage] on this entry holds, which nothing has filled;
    - [dir], what [opendir] answers on it: the error it fails with, or the
      names [readdir] returns (["."] and [".."] among them), each with the
      entry it names. *)
#[warnings="-register-all"]
Inductive inode : Type :=
| Inode (buf : stat) (unfilled : option stat)
    (dir : errno + list (string * inode)).

Definition stat_of (n : inode) : stat :=
  match n with Inode buf _ _ => buf end.

(** [lstat] on the entry, as the walker calls it. *)
Definition lstat (n : inode) : option stat :=
  match n with
  | Inode buf None _ => Some buf
  | Inode _ (Some _) _ => None
  end.

(** [lstat(cdir, &buf);] with its result not looked at: when the call fails
    [buf] keeps what it held. *)
Definition lstat_into (buf : stat) (n : inode) : stat :=
  match lstat n with
  | Some b => b
  | None => buf
  end.

(** [struct stat buf; ... lstat(file, &buf);] at the head of
    [PrintDirectoryUsage]: the buffer is a local that nothing initialises. *)
Definition lstat_fresh (n : inode) : stat :=
  match n with
  | Inode buf None _ => buf
  | Inode _ (Some g) _ => g
  end.

(** The targets a command line can name: the checked [lstat] of
    [PrintDiskUsage] fails on the others, and fills its buffer with the
    metadata of the entry it finds. *)
Record filesystem : Type := mkFs {
  cwd : inode;                        (* what ["."] names *)
  lookup : string -> option inode
}.

Definition isFile (type : file_type) : bool :=
  match type with
  | S_IFREG | S_IFLNK => true
  | _ => false
  end.

Definition isDir (type : file_type) : bool :=
  match type with
  | S_IFDIR => true
  | _ => false
  end.

(** A successful [opendir]: a fresh stream is handed out and stays open. *)
Definition opendir_ok (path : string) : IO nat :=
  fun p =>
    let h := next_stream p in
    (h, mkProcess (trace p ++ [Opendir path (Some h)]) (h :: streams p) (S h)).

(** A failing [opendir]: the null pointer, no stream. *)
Definition opendir_fail (path : string) : IO unit := emit (Opendir path None).

Fixpoint remove_stream (h : nat) (l : list nat) : list nat :=
  match l with
  | [] => []
  | x :: l' => if Nat.eqb x h then l' else x :: remove_stream h l'
  end.

(** [closedir(dir)].  On the null pointer glibc's [closedir] returns [-1]
    with [EINVAL] and releases nothing; the program ignores the result. *)
Definition closedir (dir : option nat) : IO unit :=
  fun p =>
    (tt, mkProcess (trace p ++ [Closedir dir])
           (match dir with
            | Some h => remove_stream h (streams p)
            | None => streams p
            end)
           (next_stream p)).

(** [perror(NULL)] after a failed [opendir]. *)
Definition perror (e : errno) : IO unit :=
  fprintf_stderr (strerror e ++ newline).

(* ================================================================= *)
(** ** The program *)

Module Mode.
Record t : Set := mk {
  all : bool;
  total : bool;
  readable : bool;
  depth : Z;
  progName : string
}.
End Mode.
Definition Mode : Set := Mode.t.

Definition PrintFileReadable (file : string) (kb : double) : IO unit :=
  printf (readable_line file kb).

Definition PrintFileUsage (size : Z) (name : string) (mode : Mode) : IO Z :=
  (if Mode.readable mode
   then PrintFileReadable name (inject_Z size)
   else printf (OUT_FORMAT size name)) ;;
  ret size.

Definition DepthOK (depth : Z) (mode : Mode) : bool :=
  (depth <=? Mode.depth mode) || (Mode.depth mode =? -1).

(** [strcpy(cdir, file); if (strcmp(file, "/")) strcat(cdir, "/");
    strcat(cdir, name);] *)
Definition child_path (file name : string) : string :=
  file ++ (if String.eqb file "/" then "" else "/") ++ name.

Definition dot_or_dotdot (name : string) : bool :=
  String.eqb name "." || String.eqb name "..".

(** The [while ((entry = readdir(dir)))] loop of [PrintDirectoryUsage]:
    [buf] and [total] are the locals it updates, [walk] is the recursive
    call. *)
Definition readdir_loop (walk : inode -> string -> Z -> IO Z) (file : string)
    (mode : Mode) (depth : Z)
    : list (string * inode) -> stat -> Z -> IO Z :=
  fix loop (entries : list (string * inode)) (buf : stat) (total : Z)
      {struct entries} : IO Z :=
    match entries with
    | [] => ret total
    | (name, child) :: rest =>
        if dot_or_dotdot name then loop rest buf total
        else
          let cdir := child_path file name in
          let buf := lstat_into buf child in
          if isFile (st_mode buf) && Mode.all mode
             && DepthOK (int_add depth 1) mode
          then
            v <- PrintFileUsage (c_div (st_blocks buf) 2) cdir mode ;;
            loop rest buf (long_add total v)
          else if isDir (st_mode buf) then
            v <- walk child cdir (int_add depth 1) ;;
            loop rest buf (long_add total v)
          else
            loop rest buf (long_add total (c_div (st_blocks buf) 2))
    end.

(** [long PrintDirectoryUsage(char *file, Mode *mode, int depth)], on the
    entry [node] that [file] names. *)
Fixpoint PrintDirectoryUsage (node : inode) (file : string) (mode : Mode)
    (depth : Z) {struct node} : IO Z :=
  match node with
  | Inode _ _ (inl e) =>
      opendir_fail file ;;
      let buf := lstat_fresh node in
      let total := c_div (st_blocks buf) 2 in
      fprintf_stderr (Mode.progName mode ++ ": cannot read directory `"
                      ++ file ++ "': ") ;;
      perror e ;;
      closedir None ;;
      ret total
  | Inode _ _ (inr entries) =>
      dir <- opendir_ok file ;;
      let buf := lstat_fresh node in
      let total := c_div (st_blocks buf) 2 in
      total <-
        readdir_loop
          (fun child cdir depth => PrintDirectoryUsage child cdir mode depth)
          file mode depth entries buf total ;;
      (if DepthOK depth mode
       then PrintFileUsage total file mode
       else ret total) ;;
      closedir (Some dir) ;;
      ret total
  end.

(** The loop as [PrintDirectoryUsage] runs it. *)
Definition walk_entries (file : string) (mode : Mode) (depth : Z)
    : list (string * inode) -> stat -> Z -> IO Z :=
  readdir_loop
    (fun child cdir depth => PrintDirectoryUsage child cdir mode depth)
    file mode depth.

(** The [while] loop over [files] of [PrintDiskUsage]: [total] and [retVal] are
    the locals it updates. *)
Fixpoint files_loop (fs : filesystem) (mode : Mode) (files : list string)
    (total retVal : Z) {struct files} : IO (Z * Z) :=
  match files with
  | [] => ret (total, retVal)
  | file :: rest =>
      match lookup fs file with
      | None =>
          fprintf_stderr (Mode.progName mode ++ ": cannot access `" ++ file
                          ++ "': No such file or directory" ++ newline) ;;
          files_loop fs mode rest total 1
      | Some node =>
          let buf := stat_of node in
          if isFile (st_mode buf) then
            v <- PrintFileUsage (c_div (st_blocks buf) 2) file mode ;;
            files_loop fs mode rest (long_add total v) retVal
          else if isDir (st_mode buf) then
            v <- PrintDirectoryUsage node file mode 0 ;;
            files_loop fs mode rest (long_add total v) retVal
          else
            files_loop fs mode rest total retVal
      end
  end.

(** [int PrintDiskUsage(char **files, Mode *mode)] *)
Definition PrintDiskUsage (fs : filesystem) (files : list string)
    (mode : Mode) : IO Z :=
  total <- (match files with
            | [] => PrintDirectoryUsage (cwd fs) "." mode 0
            | _ => ret 0
            end) ;;
  r <- files_loop fs mode files total 0 ;;
  (if Mode.total mode
   then PrintFileUsage (fst r) "total" mode
   else ret (fst r)) ;;
  ret (snd r).

(* ================================================================= *)
(** ** Reading the command line *)

Module Strtol.

Definition isspace (c : ascii) : bool :=
  let n := nat_of_ascii c in
  Nat.eqb n 32 || (Nat.leb 9 n && Nat.leb n 13).

Definition digit (c : ascii) : option Z :=
  let n := Z.of_nat (nat_of_ascii c) in
  if (48 <=? n) && (n <=? 57) then Some (n - 48) else None.

Fixpoint skip_space (s : string) : string :=
  match s with
  | String c s' => if isspace c then skip_space s' else s
  | EmptyString => s
  end.

Fixpoint digits (s : string) (acc : Z) : Z :=
  match s with
  | String c s' =>
      match digit c with
      | Some d => digits s' (10 * acc + d)
      | None => acc
      end
  | EmptyString => acc
  end.

(** [strtol(nptr, NULL, 10)] with [errno] cleared before the call: the
    value, and whether [errno] is set on return.  White space, an optional
    sign and the longest run of digits are read; what follows is ignored;
    without a digit the result is [0].  As in ISO C and glibc, [errno] is
    set ([ERANGE]) only when the value does not fit a [long]. *)
Definition strtol (nptr : string) : Z * bool :=
  let s := skip_space nptr in
  let '(neg, s) :=
    match s with
    | String "-"%char s' => (true, s')
    | String "+"%char s' => (false, s')
    | _ => (false, s)
    end in
  let v := digits s 0 in
  let v := if neg : bool then - v else v in
  if LONG_MAX <? v then (LONG_MAX, true)
  else if v <? LONG_MIN then (LONG_MIN, true)
  else (v, false).

End Strtol.
Export Strtol.

Definition EXIT_SUCCESS : Z := 0.
Definition EXIT_FAILURE : Z := 1.

(** A call either returns or ends the process with [exit(status)]. *)
Inductive outcome (A : Type) : Type :=
| Return (a : A)
| Exit (status : Z).
Arguments Return {A} a.
Arguments Exit {A} status.

Definition char_is (i : nat) (c : ascii) (s : string) : bool :=
  match String.get i s with
  | Some c' => Ascii.eqb c' c
  | None => false
  end.

(** [!argv[0][i]]: the character at [i] is the terminating NUL. *)
Definition nul_at (i : nat) (s : string) : bool :=
  match String.get i s with
  | Some _ => false
  | None => true
  end.

(** [*argv + n] *)
Definition string_from (n : nat) (s : string) : string :=
  String.substring n (String.length s - n) s.

Definition set_all (mode : Mode) : Mode :=
  Mode.mk true (Mode.total mode) (Mode.readable mode) (Mode.depth mode)
    (Mode.progName mode).

Definition set_total (mode : Mode) : Mode :=
  Mode.mk (Mode.all mode) true (Mode.readable mode) (Mode.depth mode)
    (Mode.progName mode).

Definition set_readable (mode : Mode) : Mode :=
  Mode.mk (Mode.all mode) (Mode.total mode) true (Mode.depth mode)
    (Mode.progName mode).

Definition set_depth (depth : Z) (mode : Mode) : Mode :=
  Mode.mk (Mode.all mode) (Mode.total mode) (Mode.readable mode) depth
    (Mode.progName mode).

(** The [while] loop over the characters that follow [-]. *)
Fixpoint short_options (opts : string) (mode : Mode) (invalid : bool)
    {struct opts} : IO (Mode * bool) :=
  match opts with
  | EmptyString => ret (mode, invalid)
  | String c opts' =>
      if Ascii.eqb c "a" then short_options opts' (set_all mode) invalid
      else if Ascii.eqb c "c" then short_options opts' (set_total mode) invalid
      else if Ascii.eqb c "h" then
        short_options opts' (set_readable mode) invalid
      else
        fprintf_stderr (Mode.progName mode ++ ": invalid option -- '"
                        ++ String c EmptyString ++ "'" ++ newline) ;;
        short_options opts' mode true
  end.

(** The body of the [for] loop of [ReadCmdArguments], on the argument
    [arg]: [mode], the [files] stored so far and [invalid] are what it
    updates. *)
Definition read_argument (arg : string) (mode : Mode) (files : list string)
    (invalid : bool) : IO (Mode * list string * bool) :=
  if (12 <=? String.length arg)%nat && char_is 0 "-" arg && char_is 1 "-" arg
  then
    if String.prefix "--max-depth=" arg then
      let '(depth, errno) := strtol (string_from 12 arg) in
      if errno || (depth <? 0) || nul_at 12 arg then
        fprintf_stderr (Mode.progName mode ++ ": invalid maximum depth `"
                        ++ string_from 12 arg ++ "'" ++ newline) ;;
        ret (set_depth depth mode, files, true)
      else
        ret (set_depth depth mode, files, invalid)
    else
      fprintf_stderr (Mode.progName mode ++ ": unrecognized option '"
                      ++ arg ++ "'" ++ newline) ;;
      ret (mode, files, true)
  else if char_is 0 "-" arg && char_is 1 "-" arg then
    fprintf_stderr (Mode.progName mode ++ ": unrecognized option '"
                    ++ arg ++ "'" ++ newline) ;;
    ret (mode, files, true)
  else if char_is 0 "-" arg then
    r <- short_options (string_from 1 arg) mode invalid ;;
    ret (fst r, files, snd r)
  else
    ret (mode, (files ++ [arg])%list, invalid).

(** The [for] loop of [ReadCmdArguments] over [argv[1..]]. *)
Fixpoint args_loop (argv : list string) (mode : Mode) (files : list string)
    (invalid : bool) {struct argv} : IO (Mode * list string * bool) :=
  match argv with
  | [] => ret (mode, files, invalid)
  | arg :: argv' =>
      r <- read_argument arg mode files invalid ;;
      args_loop argv' (fst (fst r)) (snd (fst r)) (snd r)
  end.

(** [void ReadCmdArguments(int argc, char **argv, Mode *mode, char **files)],
    on [argv[1..]]; the result is the updated [mode] and the null-terminated
    [files], unless the function exits. *)
Definition ReadCmdArguments (argv : list string) (mode : Mode)
    : IO (outcome (Mode * list string)) :=
  r <- args_loop argv mode [] false ;;
  let '(mode, files, invalid) := r in
  if invalid : bool then
    fprintf_stderr ("Try `du --help' for more information." ++ newline) ;;
    ret (Exit EXIT_FAILURE)
  else ret (Return (mode, files)).

(** [Mode mode = {0, 0, 0, -1, *argv};] *)
Definition initial_mode (progName : string) : Mode :=
  Mode.mk false false false (-1) progName.

(** [int main(int argc, char **argv)] with [argv[0] = progName] and
    [argv[1..] = args]; the result is the exit status of the process. *)
Definition main (fs : filesystem) (progName : string) (args : list string)
    : IO Z :=
  r <- ReadCmdArguments args (initial_mode progName) ;;
  match r with
  | Exit status => ret status
  | Return (mode, files) =>
      retVal <- PrintDiskUsage fs files mode ;;
      ret (if retVal =? 0 then EXIT_SUCCESS else EXIT_FAILURE)
  end.

(** The process before [main] runs. *)
Definition start : process := mkProcess [] [] 0.

(* ================================================================= *)
(** ** The notions the specification is written in *)




(** [Usage(D) = OwnMetadataCost(D) + sum(Usage(child))], over the integers:
    a child that is not a directory uses its own block count. *)
Fixpoint Usage (n : inode) : Z :=
  match n with
  | Inode buf _ dir =>
      c_div (st_blocks buf) 2 +
      match dir with
      | inl _ => 0
      | inr entries =>
          (fix sum (es : list (string * inode)) : Z :=
             match es with
             | [] => 0
             | (name, child) :: rest =>
                 (if dot_or_dotdot name then 0
                  else if isDir (st_mode (stat_of child)) then Usage child
                  else c_div (st_blocks (stat_of child)) 2) + sum rest
             end) entries
      end
  end.


(** Every block count in the tree is what the kernel reports: a
    non-negative [blkcnt_t]. *)
Fixpoint blocks_ok (n : inode) : bool :=
  match n with
  | Inode buf _ dir =>
      (0 <=? st_blocks buf) && (st_blocks buf <=? LONG_MAX) &&
      match dir with
      | inl _ => true
      | inr entries =>
          (fix all_ok (es : list (string * inode)) : bool :=
             match es with
             | [] => true
             | (_, child) :: rest => blocks_ok child && all_ok rest
             end) entries
      end
  end.

(** Number of nested [readdir] loops the walker runs on [n]: [0] when it
    cannot be opened. *)
Fixpoint height (n : inode) : Z :=
  match n with
  | Inode _ _ (inl _) => 0
  | Inode _ _ (inr entries) =>
      1 + (fix highest (es : list (string * inode)) : Z :=
             match es with
             | [] => 0
             | (_, child) :: rest => Z.max (height child) (highest rest)
             end) entries
  end.

(** KiB per unit, and the scaled value of [kb] KiB in unit [u]. *)
Definition unit_size (u : suffix) : positive :=
  match u with
  | SufK => 1
  | SufM => 1024
  | SufG => 1048576
  | SufT => 1073741824
  end.

Definition scaled (u : suffix) (kb : Z) : Q := kb # unit_size u.

Definition suffix_rank (u : suffix) : nat :=
  match u with
  | SufK => 1
  | SufM => 2
  | SufG => 3
  | SufT => 4
  end.



(** Ceiling of [a / d] on integers. *)
Definition cdiv (a : Z) (d : positive) : Z := - ((- a) / Zpos d).

(** One decimal place: the text of [c / 10] for a number [c] of tenths. *)
Definition one_decimal (c : Z) : string :=
  string_of_Z (c / 10) ++ "." ++ string_of_Z (c mod 10).

(** The size [PrintFileReadable] writes in unit [u], on integers. *)
Definition tier_size (kb : Z) (u : suffix) : size_arg :=
  let d := unit_size u in
  if 10 * Zpos d <? kb then PctD (cdiv kb d) u
  else PctF (inject_Z (cdiv (10 * kb) d) / 10)%Q u.



Fixpoint highest (es : list (string * inode)) : Z :=
  match es with
  | [] => 0
  | (_, child) :: rest => Z.max (height child) (highest rest)
  end.

(** Every call of [lstat] the walker makes on the tree succeeds: on the
    entry itself and on every entry listed below it, ["."] and [".."]
    apart, which the walker skips. *)
Fixpoint statable (n : inode) : bool :=
  match n with
  | Inode _ unfilled dir =>
      match unfilled with None => true | Some _ => false end &&
      match dir with
      | inl _ => true
      | inr entries =>
          (fix all_ok (es : list (string * inode)) : bool :=
             match es with
             | [] => true
             | (name, child) :: rest =>
                 (dot_or_dotdot name || statable child) && all_ok rest
             end) entries
      end
  end.


(** The argument [--max-depth=v]. *)
Definition max_depth_arg (v : string) : string := "--max-depth=" ++ v.

(** An argument [--max-depth=v] whose value the program rejects. *)
Definition rejected_depth (v : string) : bool :=
  snd (strtol v) || (fst (strtol v) <? 0)
  || match v with EmptyString => true | _ => false end.

(** What a step leaves alone: the streams, standard output and the
    program's name; it only adds diagnostics, and never clears [invalid]. *)
Definition diagnostics_only (p p' : process) : Prop :=
  streams p' = streams p /\ next_stream p' = next_stream p /\
  exists evs, trace p' = (trace p ++ evs)%list /\ stdout_of evs = [].

(* ================================================================= *)
(** ** A small file system to run the program on *)

Definition sample_file (blocks : Z) : inode :=
  Inode (mkStat S_IFREG blocks) None (inl ENOTDIR).

Definition sample_tree : inode :=
  Inode (mkStat S_IFDIR 8) None
    (inr [(".", Inode (mkStat S_IFDIR 8) None (inl EACCES));
          ("..", Inode (mkStat S_IFDIR 8) None (inl EACCES));
          ("a", sample_file 16);
          ("sub", Inode (mkStat S_IFDIR 8) None
                    (inr [("x", sample_file 3);
                          ("link",
                           Inode (mkStat S_IFLNK 0) None (inl ENOTDIR))]));
          ("locked", Inode (mkStat S_IFDIR 8) None (inl EACCES));
          ("pipe", Inode (mkStat S_IFIFO 0) None (inl ENOTDIR))]).

Definition sample_fs : filesystem :=
  mkFs sample_tree
    (fun path =>
       if String.eqb path "t" then Some sample_tree
       else if String.eqb path "f" then Some (sample_file 10)
       else if String.eqb path "pipe"
            then Some (Inode (mkStat S_IFIFO 0) None (inl ENOTDIR))
       else if String.eqb path "locked"
            then Some (Inode (mkStat S_IFDIR 8) None (inl EACCES))
       else None).

(** A directory that can be read but not searched: [readdir] lists its
    entries, a file and a subdirectory, and [lstat] and [opendir] fail on
    them; the buffers nothing fills hold zeros. *)
Definition zeroed : stat := mkStat S_IFREG 0.

Definition unsearchable : inode :=
  Inode (mkStat S_IFDIR 8) None
    (inr [("f", Inode (mkStat S_IFREG 24) (Some zeroed) (inl EACCES));
          ("d", Inode (mkStat S_IFDIR 8) (Some zeroed) (inl EACCES))]).

(** A directory whose three files use more blocks than a [long] counts. *)
Definition oversized : inode :=
  Inode (mkStat S_IFDIR 0) None
    (inr [("a", sample_file LONG_MAX);
          ("b", sample_file LONG_MAX);
          ("c", sample_file LONG_MAX)]).

Definition sample_mode : Mode := Mode.mk true false false 1 "du".

(* ================================================================= *)
(** ** The formatter on binary64 numbers

    The same branches as [readable_size], computed with the primitive
    binary64 operations instead of rationals: the two are compared on
    sample usages below. *)

Module Binary64.

(** The exact value of a finite binary64 number. *)
Definition to_Q (f : float) : Q :=
  match Prim2SF f with
  | S754_finite s m e =>
      let n := if s then Zneg m else Zpos m in
      if 0 <=? e then inject_Z (n * 2 ^ e)
      else n # (2 ^ Z.to_pos (- e))%positive
  | _ => 0
  end.

(** [(double)z], for [0 <= z < 2^63]. *)
Definition of_long (z : Z) : float := PrimFloat.of_uint63 (Uint63.of_Z z).

(** [(int)x] *)
Definition to_int (x : float) : Z := int_of_double (to_Q x).

Definition ceiling64 (x : float) : Z :=
  if PrimFloat.ltb 0 (x - of_long (to_int x))
  then to_int (x + 1)
  else to_int x.

Definition tier64 (x : float) (u : suffix) : size_arg :=
  if PrimFloat.ltb 1 (x / 10)
  then PctD (ceiling64 x) u
  else PctF (to_Q (of_long (ceiling64 (x * 10)) / 10)) u.

Definition readable_size64 (kb : float) : size_arg :=
  let mb := (kb / 1024)%float in
  let gb := (mb / 1024)%float in
  let tb := (gb / 1024)%float in
  if PrimFloat.leb 1 tb then tier64 tb SufT
  else if PrimFloat.leb 1 gb then tier64 gb SufG
  else if PrimFloat.leb 1 mb then tier64 mb SufM
  else if PrimFloat.ltb 1 (kb / 10) then PctD (ceiling64 kb) SufK
  else if PrimFloat.eqb kb 0 then Zero
  else PctF (to_Q (of_long (ceiling64 (kb * 10)) / 10)) SufK.

Definition size_text64 (kb : Z) : string :=
  sprintf_size (readable_size64 (of_long kb)).

(** Usages at and around every threshold of the formatter. *)
Definition thresholds : list Z :=
  [0; 1; 2; 9; 10; 11; 99; 100; 1023; 1024; 1025; 1126; 1127; 5000;
   10239; 10240; 10241; 123456; 1048575; 1048576; 1048577; 10485759;
   10485760; 10485761; 999999999; 1073741823; 1073741824; 1073741825;
   10737418239; 10737418240; 10737418241; 123456789012; 12345678901234;
   KB_MAX - 1; KB_MAX].

(** [n] usages below [bound], from a linear congruential generator. *)
Fixpoint pseudo_random (n : nat) (seed bound : Z) : list Z :=
  match n with
  | O => []
  | S n' =>
      let seed' :=
        (seed * 6364136223846793005 + 1442695040888963407) mod 2 ^ 64 in
      (seed' / 2 ^ 11) mod bound :: pseudo_random n' seed' bound
  end.

Definition samples : list Z :=
  (thresholds
   ++ pseudo_random 1000 1 (11 * 1024)
   ++ pseudo_random 1000 2 (11 * 1048576)
   ++ pseudo_random 1000 3 (11 * 1073741824)
   ++ pseudo_random 1000 4 (KB_MAX + 1))%list.

End Binary64.


(* ================================================================= *)
(** * Properties *)

(** ** The formatter on examples *)

Example size_text_1024 : size_text 1024 = "1.0M".
Proof. vm_compute. reflexivity. Qed.

Example size_text_1025 : size_text 1025 = "1.1M".
Proof. vm_compute. reflexivity. Qed.

Example size_text_11 : size_text 11 = "11K".
Proof. vm_compute. reflexivity. Qed.

Example size_text_KB_MAX : size_text KB_MAX = "999999T".
Proof. vm_compute. reflexivity. Qed.

Example size_text_over : String.length (size_text (KB_MAX + 1)) = 8%nat.
Proof. vm_compute. reflexivity. Qed.

Example ceiling_out_of_int : ceiling (inject_Z (2 ^ 31)) = INT_MIN.
Proof. vm_compute. reflexivity. Qed.

(** On the samples the rational formatter writes what the binary64
    formatter writes. *)
Example size_text_binary64 :
  forallb (fun kb => String.eqb (Binary64.size_text64 kb) (size_text kb))
    Binary64.samples = true.
Proof. vm_compute. reflexivity. Qed.

Example usage_line_plain : usage_line false 12 "a/b" = "12      a/b" ++ newline.
Proof. vm_compute. reflexivity. Qed.

Example usage_line_readable : usage_line true 2048 "a/b" = "2.0M    a/b" ++ newline.
Proof. vm_compute. reflexivity. Qed.

(* ================================================================= *)
(** ** [ceiling] and the unit tiers *)

Section Ceiling.

Lemma cdiv_le (a k : Z) (d : positive) : cdiv a d <= k <-> a <= k * Zpos d.
Proof.
  unfold cdiv. split; intro H.
  - assert (- k <= (- a) / Zpos d) by lia.
    pose proof (Z.mul_div_le (- a) (Zpos d) ltac:(lia)). nia.
  - assert (- k <= (- a) / Zpos d); [|lia].
    apply Z.div_le_lower_bound; lia.
Qed.

Lemma cdiv_ge (a k : Z) (d : positive) : k < cdiv a d <-> k * Zpos d < a.
Proof. pose proof (cdiv_le a k d). lia. Qed.

Lemma cdiv_one (a : Z) : cdiv a 1 = a.
Proof. unfold cdiv. rewrite Z.div_1_r. lia. Qed.

Lemma Qceiling_make (a : Z) (d : positive) : Qceiling (a # d) = cdiv a d.
Proof. reflexivity. Qed.

Lemma int_of_double_floor (x : Q) :
  (0 <= x)%Q -> Qfloor x <= INT_MAX -> int_of_double x = Qfloor x.
Proof.
  destruct x as [n d]. unfold Qle, int_of_double, Qfloor. cbn [Qnum Qden].
  intros H Hmax. rewrite Z.quot_div_nonneg by lia.
  assert (0 <= n / Zpos d) by (apply Z.div_pos; lia).
  destruct (Z.leb_spec INT_MIN (n / Zpos d)); [| unfold INT_MIN, INT_MAX in *; lia].
  destruct (Z.leb_spec (n / Zpos d) INT_MAX); [reflexivity | lia].
Qed.

Lemma inject_Z_succ (z : Z) : inject_Z (z + 1) == inject_Z z + 1.
Proof. rewrite inject_Z_plus. reflexivity. Qed.

Lemma inject_Z_pred (z : Z) : inject_Z (z - 1) == inject_Z z - 1.
Proof. unfold Z.sub. rewrite inject_Z_plus. reflexivity. Qed.

Lemma Qfloor_succ (x : Q) : Qfloor (x + 1) = Qfloor x + 1.
Proof.
  pose proof (Qfloor_le x) as A. pose proof (Qlt_floor x) as B.
  pose proof (Qfloor_le (x + 1)) as C. pose proof (Qlt_floor (x + 1)) as D.
  rewrite inject_Z_succ in B, D.
  assert (E : (inject_Z (Qfloor x + 1) < inject_Z (Qfloor (x + 1) + 1))%Q)
    by (rewrite !inject_Z_succ; lra).
  assert (F : (inject_Z (Qfloor (x + 1)) < inject_Z (Qfloor x + 1 + 1))%Q)
    by (rewrite !inject_Z_succ; lra).
  rewrite <- Zlt_Qlt in E, F. lia.
Qed.

Lemma ceiling_Qceiling (x : Q) :
  (0 <= x)%Q -> Qfloor x < INT_MAX -> ceiling x = Qceiling x.
Proof.
  intros Hx Hmax. unfold ceiling.
  rewrite (int_of_double_floor x Hx) by lia.
  rewrite (int_of_double_floor (x + 1)%Q)
    by (rewrite ?Qfloor_succ; first [lra | lia]).
  rewrite Qfloor_succ.
  pose proof (Qfloor_le x) as A. pose proof (Qlt_floor x) as B.
  pose proof (Qle_ceiling x) as C. pose proof (Qceiling_lt x) as D.
  rewrite inject_Z_succ in B. rewrite inject_Z_pred in D.
  unfold Qgt_bool.
  destruct (Qle_bool (x - inject_Z (Qfloor x)) 0) eqn:E; simpl.
  - apply Qle_bool_iff in E.
    assert (Hq : x == inject_Z (Qfloor x)) by lra.
    rewrite (Qceiling_comp _ _ Hq) at 1. now rewrite Qceiling_Z.
  - assert (E' : ~ (x - inject_Z (Qfloor x) <= 0)%Q)
      by (intro G; apply Qle_bool_iff in G; congruence).
    assert (F : (inject_Z (Qfloor x) < inject_Z (Qceiling x))%Q) by lra.
    assert (G : (inject_Z (Qceiling x - 1) < inject_Z (Qfloor x + 1))%Q)
      by (rewrite inject_Z_succ, inject_Z_pred; lra).
    rewrite <- Zlt_Qlt in F, G. lia.
Qed.

End Ceiling.

Section Tiers.

Variables (kb : Z) (d : positive) (q : Q).
Hypothesis Hkb : 0 <= kb.
Hypothesis Hq : q == kb # d.

Lemma tier_ge_1 : Qle_bool 1 q = (Zpos d <=? kb).
Proof.
  rewrite Hq. apply eq_true_iff_eq. rewrite Qle_bool_iff, Z.leb_le.
  unfold Qle. simpl. lia.
Qed.

Lemma tier_gt_10 : Qgt_bool (q / 10)%Q 1 = (10 * Zpos d <? kb).
Proof.
  unfold Qgt_bool. rewrite Hq. apply eq_true_iff_eq.
  rewrite negb_true_iff, Z.ltb_lt, <- not_true_iff_false, Qle_bool_iff.
  unfold Qle, Qdiv, Qmult, Qinv. cbn [Qnum Qden].
  rewrite ?Pos2Z.inj_mul. lia.
Qed.

Lemma tier_ceiling : kb < INT_MAX * Zpos d -> ceiling q = cdiv kb d.
Proof.
  intro Hmax. rewrite ceiling_Qceiling.
  - now rewrite (Qceiling_comp _ _ Hq).
  - rewrite Hq. unfold Qle. cbn [Qnum Qden]. lia.
  - rewrite (Qfloor_comp _ _ Hq). unfold Qfloor.
    apply Z.div_lt_upper_bound; lia.
Qed.

Lemma tier_ceiling_10 :
  10 * kb < INT_MAX * Zpos d -> ceiling (q * 10)%Q = cdiv (10 * kb) d.
Proof.
  intro Hmax.
  assert (E : (q * 10 == (10 * kb) # d)%Q).
  { rewrite Hq. unfold Qeq, Qmult. cbn [Qnum Qden].
    rewrite ?Pos2Z.inj_mul. lia. }
  rewrite ceiling_Qceiling.
  - now rewrite (Qceiling_comp _ _ E).
  - rewrite E. unfold Qle. cbn [Qnum Qden]. lia.
  - rewrite (Qfloor_comp _ _ E). unfold Qfloor.
    apply Z.div_lt_upper_bound; lia.
Qed.

End Tiers.

Lemma readable_size_Z (kb : Z) :
  0 <= kb <= KB_MAX ->
  readable_size (inject_Z kb) =
  if Zpos (unit_size SufT) <=? kb then tier_size kb SufT
  else if Zpos (unit_size SufG) <=? kb then tier_size kb SufG
  else if Zpos (unit_size SufM) <=? kb then tier_size kb SufM
  else if 10 <? kb then PctD kb SufK
  else if kb =? 0 then Zero
  else PctF (inject_Z (10 * kb) / 10)%Q SufK.
Proof.
  intros [Hkb Hmax]. unfold readable_size, tier_size, BYTE_CONV.
  unfold KB_MAX in Hmax.
  assert (ET : (inject_Z kb / 1024 / 1024 / 1024 == kb # unit_size SufT)%Q)
    by (unfold Qeq; simpl; lia).
  assert (EG : (inject_Z kb / 1024 / 1024 == kb # unit_size SufG)%Q)
    by (unfold Qeq; simpl; lia).
  assert (EM : (inject_Z kb / 1024 == kb # unit_size SufM)%Q)
    by (unfold Qeq; simpl; lia).
  assert (EK : inject_Z kb == kb # unit_size SufK) by reflexivity.
  rewrite (tier_ge_1 kb _ _ ET), (tier_gt_10 kb _ _ ET).
  rewrite (tier_ge_1 kb _ _ EG), (tier_gt_10 kb _ _ EG).
  rewrite (tier_ge_1 kb _ _ EM), (tier_gt_10 kb _ _ EM).
  rewrite (tier_gt_10 kb _ _ EK).
  replace (Qeq_bool (inject_Z kb) 0) with (kb =? 0)
    by (unfold Qeq_bool; simpl; now rewrite Z.mul_1_r).
  cbn [unit_size] in *. change (10 * 1) with 10.
  destruct (Z.leb_spec 1073741824 kb).
  { destruct (Z.ltb_spec (10 * 1073741824) kb);
      [ rewrite (tier_ceiling kb _ _ Hkb ET)
      | rewrite (tier_ceiling_10 kb _ _ Hkb ET) ];
      first [reflexivity | unfold INT_MAX; lia]. }
  destruct (Z.leb_spec 1048576 kb).
  { destruct (Z.ltb_spec (10 * 1048576) kb);
      [ rewrite (tier_ceiling kb _ _ Hkb EG)
      | rewrite (tier_ceiling_10 kb _ _ Hkb EG) ];
      first [reflexivity | unfold INT_MAX; lia]. }
  destruct (Z.leb_spec 1024 kb).
  { destruct (Z.ltb_spec (10 * 1024) kb);
      [ rewrite (tier_ceiling kb _ _ Hkb EM)
      | rewrite (tier_ceiling_10 kb _ _ Hkb EM) ];
      first [reflexivity | unfold INT_MAX; lia]. }
  destruct (Z.ltb_spec 10 kb).
  { rewrite (tier_ceiling kb _ _ Hkb EK) by (unfold INT_MAX; lia).
    now rewrite cdiv_one. }
  destruct (Z.eqb_spec kb 0); [reflexivity |].
  rewrite (tier_ceiling_10 kb _ _ Hkb EK) by (unfold INT_MAX; lia).
  now rewrite cdiv_one.
Qed.




Lemma round_half_even_Z (c : Z) : round_half_even (inject_Z c / 10 * 10) = c.
Proof.
  assert (E : (inject_Z c / 10 * 10 == inject_Z c)%Q) by field.
  unfold round_half_even.
  rewrite (Qfloor_comp _ _ E), Qfloor_Z.
  assert (C : (inject_Z c / 10 * 10 - inject_Z c ?= 1 # 2)%Q = Lt).
  { rewrite <- Qlt_alt. rewrite E. lra. }
  now rewrite C.
Qed.

Lemma printf_1lf_tenths (c : Z) :
  0 <= c -> printf_1lf (inject_Z c / 10) = one_decimal c.
Proof.
  intro H. unfold printf_1lf, one_decimal.
  rewrite round_half_even_Z.
  destruct (Z.ltb_spec c 0); [lia |].
  rewrite Z.abs_eq by lia. reflexivity.
Qed.

Lemma scaled_times_10 (u : suffix) (kb : Z) :
  (scaled u kb * 10 == (10 * kb) # unit_size u)%Q.
Proof.
  unfold scaled, Qeq, Qmult. cbn [Qnum Qden]. rewrite ?Pos2Z.inj_mul. lia.
Qed.

Ltac bool_cases :=
  repeat match goal with
    | |- context [if ?c then _ else _] =>
        let E := fresh "E" in destruct c eqn:E
    end;
  repeat match goal with
    | E : (_ <=? _) = true |- _ => apply Z.leb_le in E
    | E : (_ <=? _) = false |- _ => apply Z.leb_gt in E
    | E : (_ <? _) = true |- _ => apply Z.ltb_lt in E
    | E : (_ <? _) = false |- _ => apply Z.ltb_ge in E
    | E : (_ =? _) = true |- _ => apply Z.eqb_eq in E
    | E : (_ =? _) = false |- _ => apply Z.eqb_neq in E
    end.

(** Claim C2, as the code has it.  For a usage [kb] of at most [KB_MAX]
    KiB, let [u] be the largest unit among K, M, G and T whose scaled value
    is at least 1.  A scaled value strictly above 10 is written as its
    ceiling, an integer, followed by the unit; a scaled value from 1 to 10,
    ten included, is written with one decimal place: the ceiling of ten
    times the value, counted in tenths, followed by the unit.  A usage of
    zero is written ["0"], without a unit. *)
Theorem readable_size_rendering (kb : Z) (u : suffix) :
  0 <= kb <= KB_MAX ->
  (1 <= scaled u kb)%Q ->
  (forall u', (suffix_rank u < suffix_rank u')%nat -> (scaled u' kb < 1)%Q) ->
  size_text 0 = "0" /\
  ((10 < scaled u kb)%Q ->
   size_text kb = string_of_Z (Qceiling (scaled u kb)) ++ suffix_text u) /\
  ((scaled u kb <= 10)%Q ->
   size_text kb
   = one_decimal (Qceiling (scaled u kb * 10)) ++ suffix_text u).
Proof.
  intros Hrange Hu Hmax. pose proof (proj1 Hrange) as Hkb.
  split; [reflexivity |].
  rewrite (Qceiling_comp _ _ (scaled_times_10 u kb)), !Qceiling_make.
  unfold size_text. rewrite (readable_size_Z kb Hrange). unfold tier_size.
  assert (HT : u <> SufT -> kb < Zpos (unit_size SufT)).
  { intro N. destruct u; try congruence;
      specialize (Hmax SufT ltac:(cbn; lia));
      unfold scaled, Qlt in Hmax; cbn in Hmax; cbn [unit_size]; lia. }
  assert (HG : (suffix_rank u < 3)%nat -> kb < Zpos (unit_size SufG)).
  { intro N. destruct u; cbn in N; try lia;
      specialize (Hmax SufG ltac:(cbn; lia));
      unfold scaled, Qlt in Hmax; cbn in Hmax; cbn [unit_size]; lia. }
  assert (HM : (suffix_rank u < 2)%nat -> kb < Zpos (unit_size SufM)).
  { intro N. destruct u; cbn in N; try lia;
      specialize (Hmax SufM ltac:(cbn; lia));
      unfold scaled, Qlt in Hmax; cbn in Hmax; cbn [unit_size]; lia. }
  clear Hmax.
  unfold scaled, Qle, Qlt in *. cbn [Qnum Qden] in *.
  destruct u; cbn [unit_size suffix_rank suffix_text] in *;
    rewrite ?Qceiling_make.
  - specialize (HT ltac:(congruence)). specialize (HG ltac:(lia)).
    specialize (HM ltac:(lia)). rewrite cdiv_one.
    split; intro H; bool_cases; try lia; cbn [sprintf_size suffix_text].
    + reflexivity.
    + rewrite printf_1lf_tenths by lia. now rewrite cdiv_one.
  - specialize (HT ltac:(congruence)). specialize (HG ltac:(lia)). clear HM.
    split; intro H; bool_cases; try lia; cbn [sprintf_size suffix_text].
    + reflexivity.
    + rewrite printf_1lf_tenths; [reflexivity |].
      apply Z.lt_le_incl, cdiv_ge. lia.
  - specialize (HT ltac:(congruence)). clear HG HM.
    split; intro H; bool_cases; try lia; cbn [sprintf_size suffix_text].
    + reflexivity.
    + rewrite printf_1lf_tenths; [reflexivity |].
      apply Z.lt_le_incl, cdiv_ge. lia.
  - clear HT HG HM.
    split; intro H; bool_cases; try lia; cbn [sprintf_size suffix_text].
    + reflexivity.
    + rewrite printf_1lf_tenths; [reflexivity |].
      apply Z.lt_le_incl, cdiv_ge. lia.
Qed.




Lemma readable_size_rendering_witness :
  0 <= 2048 <= KB_MAX /\ (1 <= scaled SufM 2048)%Q /\
  size_text 2048 = one_decimal (Qceiling (scaled SufM 2048 * 10)) ++ "M".
Proof.
  assert (R : 0 <= 2048 <= KB_MAX) by (unfold KB_MAX; lia).
  assert (L : (1 <= scaled SufM 2048)%Q) by (unfold Qle; cbn; lia).
  split; [exact R |]. split; [exact L |].
  refine (proj2 (proj2 (readable_size_rendering 2048 SufM R L _)) _).
  - intros [] H; cbn in H; try lia; unfold Qlt; cbn; lia.
  - unfold Qle. cbn. lia.
Defined.

(** Claim C2 as stated fails at a scaled value of exactly 10: ten KiB are
    written ["10.0K"], with a decimal place, and not as the integer
    ["10K"]. *)
Lemma readable_size_ten_counterexample :
  (10 <= scaled SufK 10)%Q
  /\ size_text 10 = "10.0K"
  /\ size_text 10 <> string_of_Z (Qceiling (scaled SufK 10)) ++ suffix_text SufK.
Proof.
  split; [unfold Qle; cbn; lia |].
  split; [vm_compute; reflexivity | vm_compute; discriminate].
Qed.

Example size_text_10240 : size_text 10240 = "10.0M".
Proof. vm_compute. reflexivity. Qed.



(* ================================================================= *)
(** ** The walker *)

(** Induction on the tree, with the hypothesis for every listed entry. *)
Lemma inode_tree_ind (P : inode -> Prop) :
  (forall buf u e, P (Inode buf u (inl e))) ->
  (forall buf u entries,
      Forall (fun ne => P (snd ne)) entries ->
      P (Inode buf u (inr entries))) ->
  forall n, P n.
Proof.
  intros Hfail Hopen. fix IH 1. intros [buf u [e | entries]].
  - apply Hfail.
  - apply Hopen. revert entries. fix IHl 1. intros [| [name child] rest].
    + constructor.
    + constructor; [apply IH | apply IHl].
Qed.

Lemma PrintDirectoryUsage_failed buf u e file mode depth p :
  PrintDirectoryUsage (Inode buf u (inl e)) file mode depth p =
  (c_div (st_blocks (lstat_fresh (Inode buf u (inl e)))) 2,
   mkProcess
     (trace p ++ [Opendir file None;
                  Stderr (Mode.progName mode ++ ": cannot read directory `"
                          ++ file ++ "': ");
                  Stderr (strerror e ++ newline);
                  Closedir None])
     (streams p) (next_stream p)).
Proof.
  cbn [PrintDirectoryUsage].
  unfold bind, opendir_fail, fprintf_stderr, perror, fprintf_stderr,
    closedir, emit, ret. cbn [trace streams next_stream].
  now rewrite <- !app_assoc.
Qed.

Lemma PrintDirectoryUsage_opened buf u entries file mode depth p :
  PrintDirectoryUsage (Inode buf u (inr entries)) file mode depth p =
  (dir <- opendir_ok file ;;
   total <- walk_entries file mode depth entries
              (lstat_fresh (Inode buf u (inr entries)))
              (c_div (st_blocks (lstat_fresh (Inode buf u (inr entries)))) 2) ;;
   (if DepthOK depth mode then PrintFileUsage total file mode
    else ret total) ;;
   closedir (Some dir) ;;
   ret total) p.
Proof. reflexivity. Qed.

Lemma walk_entries_cons file mode depth name child rest buf total p :
  walk_entries file mode depth ((name, child) :: rest) buf total p =
  if dot_or_dotdot name then walk_entries file mode depth rest buf total p
  else
    let cdir := child_path file name in
    let buf := lstat_into buf child in
    if isFile (st_mode buf) && Mode.all mode && DepthOK (int_add depth 1) mode
    then
      (v <- PrintFileUsage (c_div (st_blocks buf) 2) cdir mode ;;
       walk_entries file mode depth rest buf (long_add total v)) p
    else if isDir (st_mode buf) then
      (v <- PrintDirectoryUsage child cdir mode (int_add depth 1) ;;
       walk_entries file mode depth rest buf (long_add total v)) p
    else
      walk_entries file mode depth rest buf
        (long_add total (c_div (st_blocks buf) 2)) p.
Proof.
  unfold walk_entries. cbn [readdir_loop].
  destruct (dot_or_dotdot name); [reflexivity |].
  cbv zeta.
  destruct (isFile _ && _ && _); [reflexivity |].
  destruct (isDir _); reflexivity.
Qed.

Lemma PrintFileUsage_run size name mode p :
  PrintFileUsage size name mode p =
  (size,
   mkProcess (trace p ++ [Stdout (usage_line (Mode.readable mode) size name)])
     (streams p) (next_stream p)).
Proof.
  unfold PrintFileUsage, PrintFileReadable, usage_line, bind, printf, emit, ret.
  destruct (Mode.readable mode); reflexivity.
Qed.




Lemma height_eq buf u dir :
  height (Inode buf u dir) =
  match dir with inl _ => 0 | inr entries => 1 + highest entries end.
Proof. destruct dir; reflexivity. Qed.




Lemma int_add_small (a b : Z) :
  - INT_MAX - 1 <= a + b <= INT_MAX -> int_add a b = a + b.
Proof.
  unfold int_add, wrap, INT_MAX. intro H.
  change (2 ^ (32 - 1)) with 2147483648.
  change (2 ^ 32) with 4294967296.
  rewrite Z.mod_small; lia.
Qed.


(** *** The total *)









(** *** Directory streams *)

Lemma remove_stream_head h l : remove_stream h (h :: l) = l.
Proof. cbn. now rewrite Nat.eqb_refl. Qed.

Lemma walk_entries_streams file mode depth entries :
  Forall (fun ne =>
            forall file mode depth p,
              let p' := snd (PrintDirectoryUsage (snd ne) file mode depth p) in
              streams p' = streams p /\
              exists evs, trace p' = (trace p ++ evs)%list) entries ->
  forall buf total p,
    let p' := snd (walk_entries file mode depth entries buf total p) in
    streams p' = streams p /\ exists evs, trace p' = (trace p ++ evs)%list.
Proof.
  induction 1 as [| [name child] rest Hc _ IH]; intros buf total p; cbv zeta.
  - cbn. split; [reflexivity | exists []; now rewrite app_nil_r].
  - rewrite walk_entries_cons. cbv zeta. cbn [snd] in Hc.
    destruct (dot_or_dotdot name); [apply IH |].
    destruct (_ && _ && _).
    + unfold bind. rewrite PrintFileUsage_run.
      match goal with
      | |- context [walk_entries _ _ _ rest ?b ?t ?q] =>
          destruct (IH b t q) as [Hs [evs Ht]]
      end.
      rewrite Hs, Ht. cbn [streams trace]. split; [reflexivity |].
      eexists. now rewrite <- app_assoc.
    + destruct (isDir _); [| apply IH].
      unfold bind.
      destruct (Hc (child_path file name) mode (int_add depth 1) p)
        as [Hs1 [evs1 Ht1]].
      destruct PrintDirectoryUsage as [v p1]. cbn [snd] in Hs1, Ht1.
      destruct (IH (lstat_into buf child) (long_add total v) p1)
        as [Hs [evs Ht]].
      rewrite Hs, Ht, Hs1, Ht1. split; [reflexivity |].
      eexists. now rewrite <- app_assoc.
Qed.

Lemma PrintDirectoryUsage_streams :
  forall n file mode depth p,
    let p' := snd (PrintDirectoryUsage n file mode depth p) in
    streams p' = streams p /\
    exists mid,
      trace p' =
      (trace p
       ++ Opendir file (match n with
                        | Inode _ _ (inr _) => Some (next_stream p)
                        | Inode _ _ (inl _) => None
                        end)
       :: mid
       ++ [Closedir (match n with
                     | Inode _ _ (inr _) => Some (next_stream p)
                     | Inode _ _ (inl _) => None
                     end)])%list.
Proof.
  induction n as [buf u e | buf u entries IH] using inode_tree_ind;
    intros file mode depth p; cbv zeta.
  - rewrite PrintDirectoryUsage_failed. cbn [snd streams trace].
    split; [reflexivity |]. eexists [_; _]. reflexivity.
  - rewrite PrintDirectoryUsage_opened. unfold bind, opendir_ok.
    assert (IH' : Forall (fun ne =>
              forall file mode depth p,
                let p' := snd (PrintDirectoryUsage (snd ne) file mode depth p)
                in streams p' = streams p /\
                   exists evs, trace p' = (trace p ++ evs)%list) entries).
    { eapply Forall_impl; [| exact IH]. cbv zeta. intros ne Hne f m d q.
      destruct (Hne f m d q) as [Hs [mid Ht]]. split; [exact Hs |].
      rewrite Ht. eexists. reflexivity. }
    match goal with
    | |- context [walk_entries _ _ _ entries ?b ?t ?q] =>
        destruct (walk_entries_streams file mode depth entries IH' b t q)
          as [Hs [evs Ht]];
        destruct (walk_entries file mode depth entries b t q) as [total p2]
    end.
    cbn [snd streams trace] in Hs, Ht.
    destruct (DepthOK depth mode); [rewrite PrintFileUsage_run |];
      cbn [closedir ret snd streams trace]; rewrite ?Hs, ?Ht;
      rewrite remove_stream_head; (split; [reflexivity |]).
    + exists (evs ++ [Stdout (usage_line (Mode.readable mode) total file)])%list.
      now rewrite <- !app_assoc.
    + exists evs. now rewrite <- !app_assoc.
Qed.

(** Claim C6.  When [PrintDirectoryUsage] returns, the directory streams
    open are those that were open when it was called: the stream it opened,
    and those opened below it, are closed.  Its first call is [opendir] and
    its last is [closedir] on what [opendir] returned: the stream when the
    directory was opened, the null pointer when it was not.  The program
    does not guard that last call; on the null pointer [closedir] releases
    nothing. *)
Theorem PrintDirectoryUsage_closes (node : inode) (file : string)
    (mode : Mode) (depth : Z) (p : process) :
  let p' := snd (PrintDirectoryUsage node file mode depth p) in
  let dir := match node with
             | Inode _ _ (inr _) => Some (next_stream p)
             | Inode _ _ (inl _) => None
             end in
  streams p' = streams p
  /\ (exists mid,
        trace p' = (trace p ++ Opendir file dir :: mid ++ [Closedir dir])%list)
  /\ (forall q, streams (snd (closedir None q)) = streams q).
Proof.
  cbv zeta.
  destruct (PrintDirectoryUsage_streams node file mode depth p) as [Hs Ht].
  repeat split; [exact Hs | exact Ht].
Qed.

(** *** What reaches standard output *)

Lemma stdout_of_app t1 t2 :
  stdout_of (t1 ++ t2) = (stdout_of t1 ++ stdout_of t2)%list.
Proof. apply flat_map_app. Qed.

Lemma DepthOK_0 depth mode :
  Mode.depth mode = 0 -> DepthOK depth mode = (depth <=? 0).
Proof. unfold DepthOK. intros ->. cbn. apply orb_false_r. Qed.

Lemma highest_nonneg es : 0 <= highest es.
Proof. induction es as [| [name child] rest IH]; cbn [highest]; lia. Qed.

Lemma height_nonneg n : 0 <= height n.
Proof.
  destruct n as [buf u [e | es]]; rewrite height_eq; [lia |].
  pose proof (highest_nonneg es). lia.
Qed.

Lemma walk_entries_quiet mode entries :
  Mode.depth mode = 0 ->
  Forall (fun ne =>
            forall file depth p,
              1 <= depth -> depth + height (snd ne) <= INT_MAX ->
              stdout_of (trace (snd (PrintDirectoryUsage (snd ne) file mode
                                       depth p)))
              = stdout_of (trace p)) entries ->
  forall file depth buf total p,
    0 <= depth -> depth + 1 + highest entries <= INT_MAX ->
    stdout_of (trace (snd (walk_entries file mode depth entries buf total p)))
    = stdout_of (trace p).
Proof.
  intros Hd. induction 1 as [| [name child] rest Hc _ IH];
    intros file depth buf total p H0 Hh.
  - reflexivity.
  - rewrite walk_entries_cons. cbv zeta. cbn [snd highest] in *.
    pose proof (highest_nonneg rest). pose proof (height_nonneg child).
    destruct (dot_or_dotdot name); [apply IH; lia |].
    rewrite int_add_small by (unfold INT_MAX in *; lia).
    rewrite (DepthOK_0 _ _ Hd).
    destruct (Z.leb_spec (depth + 1) 0); [lia |].
    rewrite andb_false_r.
    destruct (isDir _); [| apply IH; lia].
    unfold bind.
    specialize (Hc (child_path file name) (depth + 1) p ltac:(lia) ltac:(lia)).
    destruct PrintDirectoryUsage as [v p1]. cbn [snd] in Hc.
    rewrite IH by lia. exact Hc.
Qed.

Lemma PrintDirectoryUsage_quiet mode :
  Mode.depth mode = 0 ->
  forall n file depth p,
    1 <= depth -> depth + height n <= INT_MAX ->
    stdout_of (trace (snd (PrintDirectoryUsage n file mode depth p)))
    = stdout_of (trace p).
Proof.
  intros Hd.
  induction n as [buf u e | buf u entries IH] using inode_tree_ind;
    intros file depth p H1 Hh.
  - rewrite PrintDirectoryUsage_failed. cbn [snd trace].
    rewrite stdout_of_app. cbn. apply app_nil_r.
  - rewrite PrintDirectoryUsage_opened. rewrite height_eq in Hh.
    unfold bind, opendir_ok.
    match goal with
    | |- context [walk_entries _ _ _ entries ?b ?t ?q] =>
        pose proof (walk_entries_quiet mode entries Hd IH file depth b t q
                      ltac:(lia) ltac:(lia)) as E;
        destruct (walk_entries file mode depth entries b t q) as [total p2]
    end.
    cbn [snd trace] in E. rewrite (DepthOK_0 _ _ Hd).
    destruct (Z.leb_spec depth 0); [lia |].
    cbn [ret closedir snd trace]. rewrite stdout_of_app, E, stdout_of_app.
    cbn. now rewrite !app_nil_r.
Qed.

Lemma PrintDirectoryUsage_depth_0 buf u entries file mode p :
  Mode.depth mode = 0 ->
  height (Inode buf u (inr entries)) <= INT_MAX ->
  let r := PrintDirectoryUsage (Inode buf u (inr entries)) file mode 0 p in
  stdout_of (trace (snd r))
  = (stdout_of (trace p)
     ++ [usage_line (Mode.readable mode) (fst r) file])%list.
Proof.
  intros Hd Hh. cbv zeta. rewrite PrintDirectoryUsage_opened.
  rewrite height_eq in Hh. unfold bind, opendir_ok.
  assert (IH : Forall (fun ne =>
            forall file depth p,
              1 <= depth -> depth + height (snd ne) <= INT_MAX ->
              stdout_of (trace (snd (PrintDirectoryUsage (snd ne) file mode
                                       depth p)))
              = stdout_of (trace p)) entries).
  { apply Forall_forall. intros ne _ f d q.
    apply PrintDirectoryUsage_quiet, Hd. }
  match goal with
  | |- context [walk_entries _ _ _ entries ?b ?t ?q] =>
      pose proof (walk_entries_quiet mode entries Hd IH file 0 b t q
                    ltac:(lia) ltac:(lia)) as E;
      destruct (walk_entries file mode 0 entries b t q) as [total p2]
  end.
  cbn [snd trace] in E. rewrite (DepthOK_0 _ _ Hd). cbn [Z.leb Z.compare].
  rewrite PrintFileUsage_run. cbn [ret closedir snd fst trace].
  rewrite !stdout_of_app, E, stdout_of_app. cbn. now rewrite !app_nil_r.
Qed.

(* ================================================================= *)
(** ** The command line *)

Lemma substring_all (s : string) : String.substring 0 (String.length s) s = s.
Proof. induction s as [| c s IH]; cbn; [reflexivity | now rewrite IH]. Qed.

Lemma string_from_max_depth v : string_from 12 (max_depth_arg v) = v.
Proof. unfold string_from, max_depth_arg. cbn. rewrite Nat.sub_0_r. apply substring_all. Qed.

Lemma nul_at_max_depth v :
  nul_at 12 (max_depth_arg v) = match v with EmptyString => true | _ => false end.
Proof. destruct v; reflexivity. Qed.

Lemma read_argument_max_depth v mode files invalid p :
  read_argument (max_depth_arg v) mode files invalid p =
  let '(depth, errno) := strtol v in
  if errno || (depth <? 0) || match v with EmptyString => true | _ => false end
  then
    (set_depth depth mode, files, true,
     mkProcess
       (trace p ++ [Stderr (Mode.progName mode ++ ": invalid maximum depth `"
                            ++ v ++ "'" ++ newline)])
       (streams p) (next_stream p))
  else (set_depth depth mode, files, invalid, p).
Proof.
  unfold read_argument.
  rewrite string_from_max_depth, nul_at_max_depth.
  change (char_is 0 "-" (max_depth_arg v)) with true.
  change (char_is 1 "-" (max_depth_arg v)) with true.
  replace (String.prefix "--max-depth=" (max_depth_arg v)) with true
    by (destruct v; vm_compute; reflexivity).
  replace (12 <=? String.length (max_depth_arg v))%nat with true
    by (symmetry; apply Nat.leb_le; cbn; lia).
  cbn [andb]. destruct (strtol v) as [depth errno].
  destruct (errno || (depth <? 0) || _); reflexivity.
Qed.

Lemma read_argument_path arg mode files invalid p :
  char_is 0 "-" arg = false ->
  read_argument arg mode files invalid p
  = (mode, (files ++ [arg])%list, invalid, p).
Proof.
  intro H. unfold read_argument. rewrite H, andb_false_r. reflexivity.
Qed.

Lemma diagnostics_only_refl p : diagnostics_only p p.
Proof.
  repeat split. exists []. now rewrite app_nil_r.
Qed.

Lemma diagnostics_only_trans p1 p2 p3 :
  diagnostics_only p1 p2 -> diagnostics_only p2 p3 -> diagnostics_only p1 p3.
Proof.
  intros (S1 & N1 & e1 & T1 & O1) (S2 & N2 & e2 & T2 & O2).
  repeat split; [congruence | congruence |].
  exists (e1 ++ e2)%list. rewrite T2, T1, <- app_assoc. split; [reflexivity |].
  unfold stdout_of in *. now rewrite flat_map_app, O1, O2.
Qed.

Lemma diagnostics_only_stderr p text :
  diagnostics_only p (snd (fprintf_stderr text p)).
Proof. repeat split. exists [Stderr text]. split; reflexivity. Qed.

Ltac conj_split := repeat match goal with |- _ /\ _ => split end.

Lemma short_options_keeps opts : forall mode invalid p,
  let r := short_options opts mode invalid p in
  Mode.progName (fst (fst r)) = Mode.progName mode
  /\ Mode.depth (fst (fst r)) = Mode.depth mode
  /\ (invalid = true -> snd (fst r) = true)
  /\ diagnostics_only p (snd r).
Proof.
  induction opts as [| c opts IH]; intros mode invalid p; cbv zeta.
  - cbn. conj_split; auto using diagnostics_only_refl.
  - cbn [short_options].
    destruct (Ascii.eqb c "a"); [apply (IH (set_all mode)) |].
    destruct (Ascii.eqb c "c"); [apply (IH (set_total mode)) |].
    destruct (Ascii.eqb c "h"); [apply (IH (set_readable mode)) |].
    unfold bind.
    match goal with
    | |- context [fprintf_stderr ?t p] =>
        pose proof (diagnostics_only_stderr p t) as D;
        destruct (fprintf_stderr t p) as [u p1]
    end.
    destruct (IH mode true p1) as (A & B & C & E). cbn [snd] in D.
    conj_split; auto. eapply diagnostics_only_trans; eassumption.
Qed.

Lemma read_argument_keeps arg mode files invalid p :
  let r := read_argument arg mode files invalid p in
  Mode.progName (fst (fst (fst r))) = Mode.progName mode
  /\ (invalid = true -> snd (fst r) = true)
  /\ diagnostics_only p (snd r).
Proof.
  cbv zeta. unfold read_argument.
  destruct (_ && _ && _).
  - destruct (String.prefix _ _).
    + destruct (strtol _) as [depth errno].
      destruct (errno || _ || _); unfold bind;
        [ match goal with
          | |- context [fprintf_stderr ?t p] =>
              pose proof (diagnostics_only_stderr p t);
              destruct (fprintf_stderr t p)
          end |];
        cbn; conj_split; auto using diagnostics_only_refl.
    + unfold bind.
      match goal with
      | |- context [fprintf_stderr ?t p] =>
          pose proof (diagnostics_only_stderr p t);
          destruct (fprintf_stderr t p)
      end.
      cbn; conj_split; auto.
  - destruct (_ && _).
    + unfold bind.
      match goal with
      | |- context [fprintf_stderr ?t p] =>
          pose proof (diagnostics_only_stderr p t);
          destruct (fprintf_stderr t p)
      end.
      cbn; conj_split; auto.
    + destruct (char_is 0 "-" arg).
      * unfold bind.
        pose proof (short_options_keeps (string_from 1 arg) mode invalid p)
          as (A & _ & C & D).
        destruct short_options as [[m i] p1]. cbn in *. auto.
      * cbn. conj_split; auto using diagnostics_only_refl.
Qed.

Lemma args_loop_keeps argv : forall mode files invalid p,
  let r := args_loop argv mode files invalid p in
  Mode.progName (fst (fst (fst r))) = Mode.progName mode
  /\ (invalid = true -> snd (fst r) = true)
  /\ diagnostics_only p (snd r).
Proof.
  induction argv as [| arg argv IH]; intros mode files invalid p; cbv zeta.
  - cbn. conj_split; auto using diagnostics_only_refl.
  - cbn [args_loop]. unfold bind.
    pose proof (read_argument_keeps arg mode files invalid p) as (A & B & C).
    destruct read_argument as [[[m f] i] p1]. cbn [fst snd] in *.
    destruct (IH m f i p1) as (A' & B' & C').
    conj_split; [congruence | auto |].
    eapply diagnostics_only_trans; eassumption.
Qed.

Lemma read_argument_depth arg mode files invalid p :
  char_is 0 "-" arg && char_is 1 "-" arg = false ->
  Mode.depth (fst (fst (fst (read_argument arg mode files invalid p))))
  = Mode.depth mode.
Proof.
  intro H. unfold read_argument. rewrite <- andb_assoc, H, andb_false_r.
  destruct (char_is 0 "-" arg); [| reflexivity].
  unfold bind.
  pose proof (short_options_keeps (string_from 1 arg) mode invalid p)
    as (_ & D & _).
  destruct short_options as [[m i] p1]. exact D.
Qed.

Lemma args_loop_depth argv :
  Forall (fun arg => char_is 0 "-" arg && char_is 1 "-" arg = false) argv ->
  forall mode files invalid p,
    Mode.depth (fst (fst (fst (args_loop argv mode files invalid p))))
    = Mode.depth mode.
Proof.
  induction 1 as [| arg argv Harg _ IH]; intros mode files invalid p;
    [reflexivity |].
  cbn [args_loop]. unfold bind.
  pose proof (read_argument_depth arg mode files invalid p Harg) as D.
  destruct read_argument as [[[m f] i] p1]. cbn [fst snd] in *.
  now rewrite IH.
Qed.

Lemma args_loop_rejects v argv :
  rejected_depth v = true ->
  In (max_depth_arg v) argv ->
  forall mode files invalid p,
    let r := args_loop argv mode files invalid p in
    snd (fst r) = true
    /\ In (Stderr (Mode.progName mode ++ ": invalid maximum depth `"
                   ++ v ++ "'" ++ newline)) (trace (snd r)).
Proof.
  intros Hv. induction argv as [| arg argv IH]; intros Hin mode files invalid p;
    [contradiction |].
  cbv zeta. cbn [args_loop]. unfold bind.
  destruct Hin as [-> | Hin].
  - rewrite read_argument_max_depth. unfold rejected_depth in Hv.
    destruct (strtol v) as [depth errno]. cbn [fst snd] in Hv. rewrite Hv.
    cbn [fst snd].
    match goal with
    | |- context [args_loop argv ?m ?f true ?q] =>
        destruct (args_loop_keeps argv m f true q)
          as (_ & B & (_ & _ & evs & T & _))
    end.
    split; [now apply B |].
    rewrite T. cbn [trace]. apply in_or_app. left. apply in_or_app. right.
    now left.
  - pose proof (read_argument_keeps arg mode files invalid p) as (A & _ & _).
    destruct read_argument as [[[m f] i] p1]. cbn [fst snd] in *.
    rewrite <- A. now apply IH.
Qed.

Lemma ReadCmdArguments_rejects v argv mode p :
  rejected_depth v = true ->
  In (max_depth_arg v) argv ->
  let r := ReadCmdArguments argv mode p in
  fst r = Exit EXIT_FAILURE
  /\ In (Stderr (Mode.progName mode ++ ": invalid maximum depth `"
                 ++ v ++ "'" ++ newline)) (trace (snd r))
  /\ stdout_of (trace (snd r)) = stdout_of (trace p).
Proof.
  intros Hv Hin. cbv zeta. unfold ReadCmdArguments, bind.
  pose proof (args_loop_rejects v argv Hv Hin mode [] false p) as [A B].
  pose proof (args_loop_keeps argv mode [] false p)
    as (_ & _ & (_ & _ & evs & T & O)).
  destruct args_loop as [[[m f] i] p1]. cbn [fst snd] in *. subst i.
  cbn. split; [reflexivity |]. split.
  - apply in_or_app. now left.
  - rewrite T. unfold stdout_of in *. rewrite !flat_map_app, O. cbn.
    now rewrite !app_nil_r.
Qed.

(* ================================================================= *)
(** ** The targets named on the command line *)


Lemma files_loop_other fs mode file rest total retVal p node :
  lookup fs file = Some node ->
  isFile (st_mode (stat_of node)) = false ->
  isDir (st_mode (stat_of node)) = false ->
  files_loop fs mode (file :: rest) total retVal p
  = files_loop fs mode rest total retVal p.
Proof.
  intros Hl Hf Hd. cbn [files_loop]. rewrite Hl. cbv zeta.
  now rewrite Hf, Hd.
Qed.

Lemma files_loop_dir fs mode file rest total retVal p node :
  lookup fs file = Some node ->
  st_mode (stat_of node) = S_IFDIR ->
  files_loop fs mode (file :: rest) total retVal p
  = (v <- PrintDirectoryUsage node file mode 0 ;;
     files_loop fs mode rest (long_add total v) retVal) p.
Proof.
  intros Hl Hd. cbn [files_loop]. rewrite Hl. cbv zeta. now rewrite Hd.
Qed.



Lemma read_argument_a mode files invalid p :
  read_argument "-a" mode files invalid p = (set_all mode, files, invalid, p).
Proof. reflexivity. Qed.

Lemma ReadCmdArguments_depth_0 progName target (a : bool) p :
  char_is 0 "-" target = false ->
  ReadCmdArguments ((if a then ["-a"] else []) ++ ["--max-depth=0"; target])
    (initial_mode progName) p
  = (Return (Mode.mk a false false 0 progName, [target]), p).
Proof.
  intro Hdash. unfold ReadCmdArguments.
  change "--max-depth=0" with (max_depth_arg "0").
  destruct a; cbn [app args_loop]; unfold bind;
    rewrite ?read_argument_a; cbn [fst snd];
    rewrite read_argument_max_depth;
    change (strtol "0") with (0, false); cbn [orb Z.ltb Z.compare fst snd];
    rewrite read_argument_path by assumption; reflexivity.
Qed.

Lemma PrintDiskUsage_one_dir fs mode file node p :
  lookup fs file = Some node ->
  st_mode (stat_of node) = S_IFDIR ->
  Mode.total mode = false ->
  PrintDiskUsage fs [file] mode p
  = (0, snd (PrintDirectoryUsage node file mode 0 p)).
Proof.
  intros Hl Hd Ht. unfold PrintDiskUsage, bind. cbn [ret].
  rewrite (files_loop_dir _ _ _ _ _ _ _ _ Hl Hd). unfold bind.
  destruct PrintDirectoryUsage as [v p1]. cbn [files_loop ret fst snd].
  now rewrite Ht.
Qed.

(** Claim C5.  With [--max-depth=0], and with or without [-a], a run on
    a directory that can be opened writes one line to standard output: the
    total of that directory, at depth 0.  Nothing is written for the
    entries below it. *)
Theorem max_depth_0_prints_root_only (fs : filesystem)
    (progName target : string) (buf : stat) (u : option stat)
    (entries : list (string * inode)) (a : bool) :
  char_is 0 "-" target = false ->
  lookup fs target = Some (Inode buf u (inr entries)) ->
  st_mode buf = S_IFDIR ->
  height (Inode buf u (inr entries)) <= INT_MAX ->
  let args := ((if a then ["-a"] else []) ++ ["--max-depth=0"; target])%list in
  let mode := Mode.mk a false false 0 progName in
  let total :=
    fst (PrintDirectoryUsage (Inode buf u (inr entries)) target mode 0
           start) in
  stdout_of (trace (snd (main fs progName args start)))
  = [OUT_FORMAT total target].
Proof.
  intros Hdash Hl Hd Hh. cbv zeta. unfold main, bind.
  rewrite (ReadCmdArguments_depth_0 progName target a start Hdash).
  rewrite (PrintDiskUsage_one_dir fs (Mode.mk a false false 0 progName) target
             _ start Hl Hd eq_refl).
  cbn [ret snd].
  now rewrite (PrintDirectoryUsage_depth_0 buf u entries target
                 (Mode.mk a false false 0 progName) start eq_refl Hh).
Qed.


(** Claim C10.  A named target that exists and is neither a regular
    file, a symlink nor a directory leaves the loop over the targets as it
    found it: no line, no diagnostic, the same [total] and the same
    [retVal].  Named alone, without [-c], the run writes nothing and
    [PrintDiskUsage] returns 0. *)
Theorem other_target_ignored (fs : filesystem) (mode : Mode) (file : string)
    (rest : list string) (total retVal : Z) (node : inode) (p : process) :
  lookup fs file = Some node ->
  isFile (st_mode (stat_of node)) = false ->
  isDir (st_mode (stat_of node)) = false ->
  files_loop fs mode (file :: rest) total retVal p
  = files_loop fs mode rest total retVal p
  /\ (Mode.total mode = false -> PrintDiskUsage fs [file] mode p = (0, p)).
Proof.
  intros Hl Hf Hd. split.
  - now apply files_loop_other with node.
  - intro Ht. unfold PrintDiskUsage, bind. cbn [ret].
    rewrite (files_loop_other _ _ _ _ _ _ _ _ Hl Hf Hd). cbn. now rewrite Ht.
Qed.


(** Claim C3, as the code has it.  A command line with [--max-depth=-1]
    is a configuration error: [main] returns [EXIT_FAILURE], the
    diagnostic names the program and the value [-1], and nothing is written
    to standard output.  The unlimited configuration is the one a command
    line without a depth flag (without any [--] argument) leaves: the depth
    stays [-1] and every depth passes [DepthOK]. *)
Theorem max_depth_minus_1_rejected (fs : filesystem) (progName : string)
    (args : list string) (p : process) :
  In "--max-depth=-1" args ->
  (fst (main fs progName args p) = EXIT_FAILURE
   /\ In (Stderr (progName ++ ": invalid maximum depth `-1'" ++ newline))
        (trace (snd (main fs progName args p)))
   /\ stdout_of (trace (snd (main fs progName args p))) = stdout_of (trace p))
  /\ (forall args' mode files p',
        Forall (fun arg => char_is 0 "-" arg && char_is 1 "-" arg = false)
          args' ->
        ReadCmdArguments args' (initial_mode progName) p
        = (Return (mode, files), p') ->
        Mode.depth mode = -1 /\ forall depth, DepthOK depth mode = true).
Proof.
  intro Hin. split.
  - unfold main, bind.
    pose proof (ReadCmdArguments_rejects "-1" args (initial_mode progName) p
                  eq_refl Hin) as (A & B & C).
    destruct ReadCmdArguments as [r p1]. cbn [fst snd] in *. subst r.
    cbn [ret fst snd]. auto.
  - intros args' mode files p' Hno Hret.
    assert (D : Mode.depth mode = -1).
    { unfold ReadCmdArguments, bind in Hret.
      pose proof (args_loop_depth args' Hno (initial_mode progName) [] false p)
        as D.
      destruct args_loop as [[[m f] i] p1]. cbn [fst snd] in D.
      destruct i; cbn in Hret; [discriminate |].
      inversion Hret; subst. exact D. }
    split; [exact D |].
    intro depth. unfold DepthOK. rewrite D. cbn. apply orb_true_r.
Qed.

(** Claim C4 on values that are not numbers.  [--max-depth=1x] and
    [--max-depth=abc] are accepted without a diagnostic: [strtol] reads
    the digits it finds, 1 and 0, and the rest of the value is not looked
    at.  The run with [--max-depth=1x] is the run with [--max-depth=1]. *)
Theorem max_depth_non_numeric_accepted (fs : filesystem) (progName : string)
    (p : process) :
  ReadCmdArguments ["--max-depth=1x"] (initial_mode progName) p
  = (Return (set_depth 1 (initial_mode progName), []), p)
  /\ ReadCmdArguments ["--max-depth=abc"] (initial_mode progName) p
     = (Return (set_depth 0 (initial_mode progName), []), p)
  /\ main fs progName ["--max-depth=1x"] p
     = main fs progName ["--max-depth=1"] p.
Proof.
  assert (E1 : ReadCmdArguments ["--max-depth=1x"] (initial_mode progName) p
               = (Return (set_depth 1 (initial_mode progName), []), p)).
  { unfold ReadCmdArguments. cbn [args_loop]. unfold bind.
    change "--max-depth=1x" with (max_depth_arg "1x").
    rewrite read_argument_max_depth. reflexivity. }
  assert (E2 : ReadCmdArguments ["--max-depth=1"] (initial_mode progName) p
               = (Return (set_depth 1 (initial_mode progName), []), p)).
  { unfold ReadCmdArguments. cbn [args_loop]. unfold bind.
    change "--max-depth=1" with (max_depth_arg "1").
    rewrite read_argument_max_depth. reflexivity. }
  split; [exact E1 |]. split.
  - unfold ReadCmdArguments. cbn [args_loop]. unfold bind.
    change "--max-depth=abc" with (max_depth_arg "abc").
    rewrite read_argument_max_depth. reflexivity.
  - unfold main, bind. now rewrite E1, E2.
Qed.

(** *** Concrete runs *)



(** Past the range of [long] the additions of the walker wrap: on three
    files of [LONG_MAX] blocks each the total is negative. *)
Example PrintDirectoryUsage_wraps :
  statable oversized = true /\ blocks_ok oversized = true
  /\ Usage oversized = 13835058055282163709
  /\ fst (PrintDirectoryUsage oversized "big" sample_mode 0 start)
     = -4611686018427387907.
Proof. repeat split; vm_compute; reflexivity. Qed.

(** Claim C3 as stated fails: the run with [--max-depth=-1] ends with
    [EXIT_FAILURE] after two diagnostics, and is not the run without a depth
    flag. *)
Lemma max_depth_minus_1_counterexample :
  main sample_fs "du" ["--max-depth=-1"] start
  = (EXIT_FAILURE,
     mkProcess
       [Stderr ("du: invalid maximum depth `-1'" ++ newline);
        Stderr ("Try `du --help' for more information." ++ newline)] [] 0)
  /\ main sample_fs "du" ["--max-depth=-1"] start <> main sample_fs "du" [] start.
Proof.
  split; [vm_compute; reflexivity |]. vm_compute. discriminate.
Qed.

Lemma max_depth_minus_1_rejected_witness :
  In "--max-depth=-1" ["-a"; "--max-depth=-1"; "t"] /\
  fst (main sample_fs "du" ["-a"; "--max-depth=-1"; "t"] start) = EXIT_FAILURE.
Proof.
  split; [cbn; auto |].
  apply (max_depth_minus_1_rejected sample_fs "du"
           ["-a"; "--max-depth=-1"; "t"] start).
  cbn; auto.
Defined.

Lemma max_depth_0_prints_root_only_witness :
  char_is 0 "-" "t" = false /\
  height sample_tree <= INT_MAX /\
  stdout_of (trace (snd (main sample_fs "du" ["-a"; "--max-depth=0"; "t"]
                           start)))
  = [OUT_FORMAT 21 "t"].
Proof.
  assert (H : height sample_tree <= INT_MAX) by now vm_compute.
  split; [reflexivity |]. split; [exact H |].
  exact (max_depth_0_prints_root_only sample_fs "du" "t" _ _ _ true
           eq_refl eq_refl eq_refl H).
Defined.


Lemma other_target_ignored_witness :
  lookup sample_fs "pipe" = Some (Inode (mkStat S_IFIFO 0) None (inl ENOTDIR)) /\
  PrintDiskUsage sample_fs ["pipe"] sample_mode start = (0, start).
Proof.
  split; [reflexivity |].
  exact (proj2 (other_target_ignored sample_fs sample_mode "pipe" [] 0 0
                  (Inode (mkStat S_IFIFO 0) None (inl ENOTDIR)) start
                  eq_refl eq_refl eq_refl) eq_refl).
Defined.



(** *** Whole runs *)

Example run_all :
  main sample_fs "du" ["-a"; "t"] start
  = (EXIT_SUCCESS,
     mkProcess
       [Opendir "t" (Some 0%nat);
        Stdout (OUT_FORMAT 8 "t/a");
        Opendir "t/sub" (Some 1%nat);
        Stdout (OUT_FORMAT 1 "t/sub/x");
        Stdout (OUT_FORMAT 0 "t/sub/link");
        Stdout (OUT_FORMAT 5 "t/sub");
        Closedir (Some 1%nat);
        Opendir "t/locked" None;
        Stderr "du: cannot read directory `t/locked': ";
        Stderr ("Permission denied" ++ newline);
        Closedir None;
        Stdout (OUT_FORMAT 21 "t");
        Closedir (Some 0%nat)] [] 2).
Proof. vm_compute. reflexivity. Qed.

Example run_missing_target :
  main sample_fs "du" ["-c"; "nowhere"; "f"] start
  = (EXIT_FAILURE,
     mkProcess
       [Stderr ("du: cannot access `nowhere': No such file or directory"
                ++ newline);
        Stdout (OUT_FORMAT 5 "f");
        Stdout (OUT_FORMAT 5 "total")] [] 0).
Proof. vm_compute. reflexivity. Qed.

Example run_rejected_depths :
  stderr_of (trace (snd (main sample_fs "du"
                           ["--max-depth=-5"; "--max-depth="; "t"] start)))
  = ["du: invalid maximum depth `-5'" ++ newline;
     "du: invalid maximum depth `'" ++ newline;
     "Try `du --help' for more information." ++ newline].
Proof. vm_compute. reflexivity. Qed.

Example run_unsearchable :
  PrintDirectoryUsage unsearchable "ro" sample_mode 0 start
  = (4,
     mkProcess
       [Opendir "ro" (Some 0%nat);
        Opendir "ro/f" None;
        Stderr "du: cannot read directory `ro/f': ";
        Stderr ("Permission denied" ++ newline);
        Closedir None;
        Opendir "ro/d" None;
        Stderr "du: cannot read directory `ro/d': ";
        Stderr ("Permission denied" ++ newline);
        Closedir None;
        Stdout (OUT_FORMAT 4 "ro");
        Closedir (Some 0%nat)] [] 1).
Proof. vm_compute. reflexivity. Qed.
